(** * StatefulEmitter: a model of [src/index.js] and its properties

    [StatefulEmitter] is a Node.js class extending [events.EventEmitter].
    Every instance owns a snapshot kept in the module-private table
    [PrivateStates.states] under the instance's [_id]; the [state] getter
    hands out copies of it and [setState] merges a partial value into it and
    emits ['statechange'] and ['change'].

    The class is embedded as functions in a state-and-exception monad over a
    [World]: the JavaScript object store (objects are shared by reference,
    so aliasing is visible), the module-level [PrivateStates] object, the
    listener tables of the emitters and a log of the listener calls made.

    What is modelled of JavaScript, and what is not:
    - values are [undefined], [null], booleans, integral numbers, strings
      and references to objects; an object is its map of own enumerable
      string-keyed properties.  Accessors, non-enumerable properties,
      symbols, frozen objects and [NaN] are outside the model;
    - every object has the prototype [Object.prototype] and no property is
      found on a prototype.  The only computed property reads of [setState]
      use array indices as keys, which [Object.prototype] does not define.
      The one property of [Object.prototype] that writes can reach is the
      accessor [__proto__]: assigning to that name, as [Object.assign] does
      for a source that has an own field of the name, changes the prototype
      and makes no field.  Prototypes are outside the model, so a field named
      [__proto__] is too: the primitives treat it like any other name, and
      every statement below about the fields of an object either leaves that
      name out or is about objects without it;
    - listeners and the subclass's [initialState] accessor are user code:
      they are arbitrary functions on the object store that may throw.  The
      [PrivateStates] object is module-private and out of their reach.  User
      code that calls back into the same emitter is outside the model. *)

From stdpp Require Import gmap strings list fin_maps pretty sorting.

(** ** JavaScript values and the object store *)

Inductive val :=
  | VUndef
  | VNull
  | VBool (b : bool)
  | VNum (n : Z)
  | VStr (s : string)
  | VRef (l : nat).

#[global] Instance val_eq_dec : EqDecision val.
Proof. solve_decision. Defined.

#[global] Instance val_inhabited : Inhabited val := populate VUndef.

(** [n !== o] is [negb (strict_eq n o)]: no coercion, objects compared by
    reference. *)
Definition strict_eq (a b : val) : bool := bool_decide (a = b).

(** The condition of [s ? _ : _] and of [s || _]. *)
Definition truthy (v : val) : bool :=
  match v with
  | VUndef | VNull => false
  | VBool b => b
  | VNum n => negb (n =? 0)%Z
  | VStr s => negb (String.eqb s "")
  | VRef _ => true
  end.

(** Property keys are strings; a number used as a key is printed in
    decimal. *)
Definition to_key (v : val) : string :=
  match v with
  | VUndef => "undefined"
  | VNull => "null"
  | VBool true => "true"
  | VBool false => "false"
  | VNum n => pretty n
  | VStr s => s
  | VRef _ => "[object Object]"
  end.

(** The index properties of a string primitive. *)
Fixpoint string_props (i : nat) (s : string) : gmap string val :=
  match s with
  | EmptyString => ∅
  | String c s' => <[pretty i := VStr (String c EmptyString)]> (string_props (S i) s')
  end.

(** The own enumerable properties [Object.assign] and [Object.keys] see in
    a value. *)
Definition own_props (h : list (gmap string val)) (v : val) : gmap string val :=
  match v with
  | VRef l => default ∅ (h !! l)
  | VStr s => string_props 0 s
  | _ => ∅
  end.

Inductive exn :=
  | TypeError
  | Thrown (v : val).

(** User code: a function on the object store that returns or throws. *)
Definition user (A : Type) : Type :=
  list (gmap string val) → list (gmap string val) * (exn + A).

Record listener := Listener {
  lname : string;
  lbody : list val → user unit
}.

(** One listener call: the emitter, the event, the listener and the
    arguments it was called with. *)
Record call := Call {
  c_emitter : nat;
  c_event : string;
  c_listener : string;
  c_args : list val
}.

#[global] Instance call_eq_dec : EqDecision call.
Proof. solve_decision. Defined.

(** [const PrivateStates = { id: 0, states: {} }] *)
Module PrivateStates.
Record t := mk {
  id : Z;
  states : gmap string val
}.
Definition init : t := {| id := 0%Z; states := ∅ |}.
End PrivateStates.

Record World := mkWorld {
  heap : list (gmap string val);
  private : PrivateStates.t;
  listeners : gmap (nat * string) (list listener);
  calls : list call
}.

Definition initial_world : World :=
  {| heap := []; private := PrivateStates.init; listeners := ∅; calls := [] |}.

Definition set_heap (f : list (gmap string val) → list (gmap string val))
    (w : World) : World :=
  {| heap := f (heap w); private := private w;
     listeners := listeners w; calls := calls w |}.

Definition set_private (f : PrivateStates.t → PrivateStates.t) (w : World) : World :=
  {| heap := heap w; private := f (private w);
     listeners := listeners w; calls := calls w |}.

Definition set_listeners
    (f : gmap (nat * string) (list listener) → gmap (nat * string) (list listener))
    (w : World) : World :=
  {| heap := heap w; private := private w;
     listeners := f (listeners w); calls := calls w |}.

Definition set_calls (f : list call → list call) (w : World) : World :=
  {| heap := heap w; private := private w;
     listeners := listeners w; calls := f (calls w) |}.

(** ** The monad of the methods: state passing with exceptions *)

Inductive Res (A : Type) :=
  | Ok (a : A) (w : World)
  | Throw (e : exn) (w : World).
Arguments Ok {A} a w.
Arguments Throw {A} e w.

Definition M (A : Type) : Type := World → Res A.

#[global] Instance M_ret : MRet M := λ A a w, Ok a w.

#[global] Instance M_bind : MBind M := λ A B f m w,
  match m w with
  | Ok a w' => f a w'
  | Throw e w' => Throw e w'
  end.

Definition throw {A} (e : exn) : M A := λ w, Throw e w.

(** The world a computation leaves behind, returned or thrown. *)
Definition world_of {A} (r : Res A) : World :=
  match r with
  | Ok _ w => w
  | Throw _ w => w
  end.

Definition returned {A} (r : Res A) : Prop :=
  match r with
  | Ok _ _ => True
  | Throw _ _ => False
  end.

Definition lift_user {A} (f : user A) : M A := λ w,
  match f (heap w) with
  | (h, inr a) => Ok a (set_heap (λ _, h) w)
  | (h, inl e) => Throw e (set_heap (λ _, h) w)
  end.

(** ** Primitives of the language and of [events.EventEmitter] *)

(** An object literal [{...}]: a fresh reference. *)
Definition alloc (o : gmap string val) : M val := λ w,
  Ok (VRef (length (heap w))) (set_heap (λ h, h ++ [o]) w).

(** [v[k]]: a [TypeError] on [undefined] and [null], [undefined] for a
    missing property. *)
Definition get_prop (v : val) (k : string) : M val := λ w,
  match v with
  | VUndef | VNull => Throw TypeError w
  | VStr s =>
      if String.eqb k "length" then Ok (VNum (Z.of_nat (String.length s))) w
      else Ok (default VUndef (string_props 0 s !! k)) w
  | _ => Ok (default VUndef (own_props (heap w) v !! k)) w
  end.

(** [o[k] = v] on an object, for a name [k] that no prototype of [o]
    intercepts: any name but [__proto__]. *)
Definition set_prop (l : nat) (k : string) (v : val) : M unit := λ w,
  Ok () (set_heap (alter (insert k v) l) w).

(** [Object.assign(target, ...sources)] on an object [target]: the own
    properties of each source in turn, later ones winning; [undefined] and
    [null] sources are skipped.  A source field named [__proto__] is not
    modelled: the real assignment lets it change the prototype of [target]
    and gives [target] no such field. *)
Definition Object_assign (target : val) (sources : list val) : M val := λ w,
  match target with
  | VRef l =>
      Ok target
         (set_heap (alter (λ o, foldl (λ acc s, own_props (heap w) s ∪ acc) o sources) l) w)
  | VUndef | VNull => Throw TypeError w
  | _ => Ok target w
  end.

(** [Object.keys(v)]: a [TypeError] on [undefined] and [null].  The order of
    the names is not modelled; [setState] uses their number only. *)
Definition Object_keys (v : val) : M (list string) := λ w,
  match v with
  | VUndef | VNull => Throw TypeError w
  | _ => Ok (map_to_list (own_props (heap w) v)).*1 w
  end.

(** [for (const key in arr)] on an array: its indices, as strings, in
    ascending order. *)
Definition array_indices {A} (arr : list A) : list string :=
  (λ i : nat, pretty i) <$> seq 0 (length arr).

Fixpoint for_in (keys : list string) (body : string → M unit) : M unit :=
  match keys with
  | [] => mret ()
  | key :: rest => body key ;; for_in rest body
  end.

(** [PrivateStates.states[k]] and [PrivateStates.states[k] = v] *)
Definition states_get (k : val) : M val := λ w,
  Ok (default VUndef (PrivateStates.states (private w) !! to_key k)) w.

Definition states_set (k : val) (v : val) : M unit := λ w,
  Ok () (set_private (λ p, {| PrivateStates.id := PrivateStates.id p;
                              PrivateStates.states := <[to_key k := v]> (PrivateStates.states p) |}) w).

(** [++PrivateStates.id] *)
Definition pre_increment_id : M val := λ w,
  let n := (PrivateStates.id (private w) + 1)%Z in
  Ok (VNum n) (set_private (λ p, {| PrivateStates.id := n;
                                    PrivateStates.states := PrivateStates.states p |}) w).

(** [EventEmitter.prototype.on]: append to the listeners of the event. *)
Definition on (this : nat) (ev : string) (l : listener) : M unit := λ w,
  Ok () (set_listeners
           (λ t, <[(this, ev) := default [] (t !! (this, ev)) ++ [l]]> t) w).

(** Calling one listener: the call happens, then its body runs. *)
Definition invoke (this : nat) (ev : string) (args : list val) (l : listener) : M unit := λ w,
  lift_user (lbody l args)
    (set_calls (λ cs, cs ++ [Call this ev (lname l) args]) w).

Fixpoint invoke_all (this : nat) (ev : string) (args : list val)
    (ls : list listener) : M unit :=
  match ls with
  | [] => mret ()
  | l :: rest => invoke this ev args l ;; invoke_all this ev args rest
  end.

(** [EventEmitter.prototype.emit]: the listeners registered for the event
    are called synchronously in registration order; what a listener throws
    propagates to the caller of [emit] and the listeners after it are not
    called.  The result tells whether the event had listeners. *)
Definition emit (this : nat) (ev : string) (args : list val) : M bool := λ w,
  match listeners w !! (this, ev) with
  | None | Some [] => Ok false w
  | Some ls => (invoke_all this ev args ls ;; mret true) w
  end.

(** ** The class *)

(** [get initial_state() { return null; }].  The constructor reads
    [this.initialState], a different name, so this accessor is never
    consulted. *)
Definition initial_state : user val := λ h, (h, inr VNull).

(** [constructor()].  [initialState] is the accessor of that name a subclass
    defines, if it does; the base class has none and [this.initialState] is
    [undefined]. *)
Definition constructor (initialState : option (nat → user val)) : M nat :=
  this ← alloc ∅;
  match this with
  | VRef this =>
      n ← pre_increment_id;
      set_prop this "_id" n;;
      k ← get_prop (VRef this) "_id";
      v ← match initialState with
          | Some getter => lift_user (getter this)
          | None => mret VUndef
          end;
      states_set k v;;
      mret this
  | _ => throw TypeError
  end.

(** [get state()] *)
Definition state (this : nat) : M val :=
  k ← get_prop (VRef this) "_id";
  s ← states_get k;
  if truthy s then
    target ← alloc ∅;
    Object_assign target [s]
  else mret s.

(** [setState(value)] *)
Definition setState (this : nat) (value : val) : M unit :=
  k ← get_prop (VRef this) "_id";
  oldState ← states_get k;
  target ← alloc ∅;
  source ← (if truthy oldState then mret oldState else alloc ∅);
  newState ← Object_assign target [source; value];
  k ← get_prop (VRef this) "_id";
  states_set k newState;;
  emit this "statechange" [newState; oldState];;
  keys ← Object_keys value;
  for_in (array_indices keys) (λ key,
    o ← get_prop oldState key;
    n ← get_prop newState key;
    if negb (strict_eq n o) then emit this "change" [n; o] ;; mret ()
    else mret ()).

(** ** Reading a world *)

(** [this._id] *)
Definition instance_id (this : nat) (w : World) : val :=
  default VUndef (own_props (heap w) (VRef this) !! "_id").

(** [PrivateStates.states[this._id]], the stored snapshot. *)
Definition snapshot (this : nat) (w : World) : val :=
  default VUndef (PrivateStates.states (private w) !! to_key (instance_id this w)).

(** The listeners of an event of an emitter, in registration order. *)
Definition subscribers (this : nat) (ev : string) (w : World) : list listener :=
  default [] (listeners w !! (this, ev)).

(** The call [emit] makes to a listener. *)
Definition call_of (this : nat) (ev : string) (args : list val) (l : listener) : call :=
  Call this ev (lname l) args.

(** A body leaves the object at [l] as it is, whenever there is one; it may
    make new objects and write to others. *)
Definition keeps (l : nat) (f : list val → user unit) : Prop :=
  ∀ args h, is_Some (h !! l) → (f args h).1 !! l = h !! l.

Definition listeners_keep (this : nat) (ev : string) (l : nat) (w : World) : Prop :=
  Forall (λ f, keeps l (lbody f)) (subscribers this ev w).

(** No listener of the event throws. *)
Definition listeners_quiet (this : nat) (ev : string) (w : World) : Prop :=
  Forall (λ f, ∀ args h, (lbody f args h).2 = inr ()) (subscribers this ev w).

(** What [Object.assign({}, oldState || {}, value)] builds. *)
Definition merged (this : nat) (value : val) (w : World) : gmap string val :=
  own_props (heap w) value ∪ own_props (heap w) (snapshot this w).

(** The world of [setState] just after
    [PrivateStates.states[this._id] = newState]. *)
Definition after_store (this : nat) (value : val) (w : World) : World :=
  {| heap := heap w ++ merged this value w ::
               (if truthy (snapshot this w) then [] else [∅]);
     private :=
       {| PrivateStates.id := PrivateStates.id (private w);
          PrivateStates.states :=
            <[to_key (instance_id this w) := VRef (length (heap w))]>
              (PrivateStates.states (private w)) |};
     listeners := listeners w;
     calls := calls w |}.

(** The field loop of [setState]. *)
Definition field_loop (this : nat) (value newState oldState : val) : M unit :=
  keys ← Object_keys value;
  for_in (array_indices keys) (λ key,
    o ← get_prop oldState key;
    n ← get_prop newState key;
    if negb (strict_eq n o) then emit this "change" [n; o] ;; mret ()
    else mret ()).

(** What [setState] does after the store. *)
Definition notify (this : nat) (value newState oldState : val) : M unit :=
  emit this "statechange" [newState; oldState];;
  field_loop this value newState oldState.

(** ** Basic facts *)

Arguments emit : simpl never.
Arguments for_in : simpl never.
Arguments Object_keys : simpl never.

Lemma bind_unfold {A B} (m : M A) (f : A → M B) (w : World) :
  (m ≫= f) w = match m w with
               | Ok a w' => f a w'
               | Throw e w' => Throw e w'
               end.
Proof. reflexivity. Qed.

Lemma falsy_no_props h v : truthy v = false → own_props h v = ∅.
Proof.
  destruct v as [| |b|n|s|l]; simpl; try done.
  destruct s; simpl; [done|discriminate].
Qed.

Lemma own_props_app_empty h v (ext : list (gmap string val)) :
  Forall (λ o, o = ∅) ext → own_props (h ++ ext) v = own_props h v.
Proof.
  intros Hext. destruct v as [| |b|n|s|l]; simpl; try done.
  destruct (decide (l < length h)%nat) as [Hlt|Hge].
  - by rewrite lookup_app_l.
  - rewrite lookup_app_r by lia. rewrite (lookup_ge_None_2 h l) by lia. simpl.
    destruct (ext !! (l - length h)%nat) as [o|] eqn:Ho; simpl; [|done].
    eapply Forall_lookup_1 in Hext; eauto.
Qed.

Lemma instance_id_app this w ext :
  (this < length (heap w))%nat →
  default VUndef (own_props (heap w ++ ext) (VRef this) !! "_id") = instance_id this w.
Proof. intros Hlt. unfold instance_id. simpl. by rewrite lookup_app_l. Qed.

Lemma alter_at_length {A} (f : A → A) (h : list A) (o : A) (t : list A) :
  alter f (length h) (h ++ o :: t) = h ++ f o :: t.
Proof. rewrite alter_app_r_alt by lia. by rewrite Nat.sub_diag. Qed.

(** The statements of [setState] up to the store, followed by [rest]. *)
Definition store_then (this : nat) (value : val) (rest : val → val → M unit) : M unit :=
  k ← get_prop (VRef this) "_id";
  oldState ← states_get k;
  target ← alloc ∅;
  source ← (if truthy oldState then mret oldState else alloc ∅);
  newState ← Object_assign target [source; value];
  k ← get_prop (VRef this) "_id";
  states_set k newState;;
  rest newState oldState.

Lemma store_then_eq this value rest w :
  (this < length (heap w))%nat →
  store_then this value rest w =
  rest (VRef (length (heap w))) (snapshot this w) (after_store this value w).
Proof.
  intros Hlt. unfold store_then, after_store, merged, snapshot, instance_id.
  simpl own_props.
  do 3 (rewrite bind_unfold; simpl).
  remember (default VUndef (PrivateStates.states (private w) !! _)) as old eqn:Hold.
  clear Hold.
  destruct (truthy old) eqn:Ht.
  - do 3 (rewrite bind_unfold; simpl).
    repeat rewrite (own_props_app_empty (heap w) _ [∅]) by (repeat constructor).
    rewrite !alter_at_length, lookup_app_l by done.
    rewrite bind_unfold; simpl.
    f_equal. unfold set_private, set_heap. simpl. f_equal.
    by rewrite alter_at_length, (right_id_L ∅ (∪)).
  - do 3 (rewrite bind_unfold; simpl).
    rewrite <- !(assoc_L (++) (heap w)). simpl.
    repeat rewrite (own_props_app_empty (heap w) _ [∅; ∅]) by (repeat constructor).
    rewrite !alter_at_length, lookup_app_l by done.
    rewrite bind_unfold; simpl.
    f_equal. unfold set_private, set_heap. simpl. f_equal.
    rewrite <- !(assoc_L (++) (heap w)). simpl.
    rewrite alter_at_length, length_app, lookup_app_r by lia. simpl.
    replace (length (heap w) + 1 - length (heap w))%nat with 1%nat by lia. simpl.
    rewrite (falsy_no_props _ _ Ht).
    by rewrite !(right_id_L ∅ (∪)).
Qed.

(** [setState] up to the store, computed. *)
Lemma setState_eq this value w :
  (this < length (heap w))%nat →
  setState this value w =
  notify this value (VRef (length (heap w))) (snapshot this w) (after_store this value w).
Proof. intros Hlt. by rewrite <- store_then_eq. Qed.

(** ** What notifying listeners does to a world *)

Lemma invoke_eq this ev args l w :
  invoke this ev args l w =
  match lbody l args (heap w) with
  | (h, inr a) =>
      Ok a {| heap := h; private := private w; listeners := listeners w;
              calls := calls w ++ [call_of this ev args l] |}
  | (h, inl e) =>
      Throw e {| heap := h; private := private w; listeners := listeners w;
                 calls := calls w ++ [call_of this ev args l] |}
  end.
Proof. unfold invoke, lift_user. simpl. by destruct (lbody l args (heap w)) as [h [e|[]]]. Qed.

Lemma invoke_all_cons this ev args l ls w :
  invoke_all this ev args (l :: ls) w =
  match invoke this ev args l w with
  | Ok _ w' => invoke_all this ev args ls w'
  | Throw e w' => Throw e w'
  end.
Proof. reflexivity. Qed.

(** The listeners are called in order, each with the same arguments, up to
    the first that throws; all of them when the call returns. *)
Lemma invoke_all_calls this ev args ls w :
  ∃ n, (n ≤ length ls)%nat ∧
    calls (world_of (invoke_all this ev args ls w)) =
      calls w ++ (call_of this ev args <$> take n ls) ∧
    (returned (invoke_all this ev args ls w) → n = length ls).
Proof.
  revert w. induction ls as [|l ls IH]; intros w.
  - exists 0%nat. simpl. by rewrite (right_id_L [] (++)).
  - rewrite invoke_all_cons, invoke_eq.
    destruct (lbody l args (heap w)) as [h [e|[]]].
    + exists 1%nat. simpl. split; [lia|]. split; [|done]. reflexivity.
    + match goal with |- context [invoke_all _ _ _ _ ?w1] => destruct (IH w1) as (n & Hn & Hc & Hr) end.
      exists (S n). simpl in *. split; [lia|]. rewrite Hc.
      split; [by rewrite <- (assoc_L (++))|]. intros Hret. by rewrite Hr.
Qed.

Lemma invoke_all_private this ev args ls w :
  private (world_of (invoke_all this ev args ls w)) = private w ∧
  listeners (world_of (invoke_all this ev args ls w)) = listeners w.
Proof.
  revert w. induction ls as [|l ls IH]; intros w; [done|].
  rewrite invoke_all_cons, invoke_eq.
  destruct (lbody l args (heap w)) as [h [e|[]]]; [done|].
  match goal with |- context [invoke_all _ _ _ _ ?w1] => by destruct (IH w1) as [-> ->] end.
Qed.

Lemma invoke_all_quiet this ev args ls w :
  Forall (λ f, ∀ args h, (lbody f args h).2 = inr ()) ls →
  returned (invoke_all this ev args ls w).
Proof.
  revert w. induction ls as [|l ls IH]; intros w Hq; [done|].
  inversion Hq as [|? ? Hl Hls]; subst.
  rewrite invoke_all_cons, invoke_eq. specialize (Hl args (heap w)).
  destruct (lbody l args (heap w)) as [h [e|[]]]; [done|]. by apply IH.
Qed.

Lemma emit_eq this ev args w :
  emit this ev args w =
  match invoke_all this ev args (subscribers this ev w) w with
  | Ok _ w' => Ok (bool_decide (subscribers this ev w ≠ [])) w'
  | Throw e w' => Throw e w'
  end.
Proof.
  unfold emit, subscribers.
  destruct (listeners w !! (this, ev)) as [[|l ls]|]; try done.
Qed.

Lemma emit_world this ev args w :
  world_of (emit this ev args w) =
  world_of (invoke_all this ev args (subscribers this ev w) w).
Proof. rewrite emit_eq. by destruct (invoke_all _ _ _ _ _). Qed.

Lemma emit_returned this ev args w :
  returned (emit this ev args w) ↔
  returned (invoke_all this ev args (subscribers this ev w) w).
Proof. rewrite emit_eq. by destruct (invoke_all _ _ _ _ _). Qed.

Section frame.
(** A relation between object stores that every listener body of interest
    respects. *)
Context (Rh : relation (list (gmap string val))) `{!PreOrder Rh}.

Definition respects (f : list val → user unit) : Prop :=
  ∀ args h, Rh h (f args h).1.

Lemma invoke_all_heap this ev args ls w :
  Forall (λ f, respects (lbody f)) ls →
  Rh (heap w) (heap (world_of (invoke_all this ev args ls w))).
Proof.
  revert w. induction ls as [|l ls IH]; intros w Hr; [done|].
  inversion Hr as [|? ? Hl Hls]; subst.
  rewrite invoke_all_cons, invoke_eq. specialize (Hl args (heap w)).
  destruct (lbody l args (heap w)) as [h [e|[]]]; [done|].
  etrans; [exact Hl|]. by apply (IH (mkWorld _ _ _ _)).
Qed.

(** The footprint of the listeners of event [ev] of emitter [this]. *)
Record emitted (this : nat) (ev : string) (w w' : World) : Prop := {
  em_private : private w' = private w;
  em_listeners : listeners w' = listeners w;
  em_calls : ∃ cs, calls w' = calls w ++ cs ∧
               Forall (λ c, c_emitter c = this ∧ c_event c = ev) cs;
  em_heap : Forall (λ f, respects (lbody f)) (subscribers this ev w) →
            Rh (heap w) (heap w')
}.

Lemma emitted_refl this ev w : emitted this ev w w.
Proof.
  split; try done. exists []. by rewrite (right_id_L [] (++)).
Qed.

Lemma emitted_trans this ev w1 w2 w3 :
  emitted this ev w1 w2 → emitted this ev w2 w3 → emitted this ev w1 w3.
Proof.
  intros [Hp1 Hl1 (cs1 & Hc1 & Hf1) Hh1] [Hp2 Hl2 (cs2 & Hc2 & Hf2) Hh2].
  split.
  - congruence.
  - congruence.
  - exists (cs1 ++ cs2). rewrite Hc2, Hc1, (assoc_L (++)). split; [done|].
    by apply Forall_app.
  - intros Hr. etrans; [by apply Hh1|]. apply Hh2.
    unfold subscribers in *. by rewrite Hl1.
Qed.

Lemma emit_emitted this ev args w :
  emitted this ev w (world_of (emit this ev args w)).
Proof.
  rewrite emit_world. split.
  - apply invoke_all_private.
  - apply invoke_all_private.
  - destruct (invoke_all_calls this ev args (subscribers this ev w) w)
      as (n & _ & Hc & _).
    eexists. split; [exact Hc|].
    apply Forall_fmap, Forall_forall. by intros l _.
  - apply invoke_all_heap.
Qed.

Lemma for_in_emitted this ev keys body w :
  (∀ key w, emitted this ev w (world_of (body key w))) →
  emitted this ev w (world_of (for_in keys body w)).
Proof.
  intros Hbody. revert w. induction keys as [|key keys IH]; intros w.
  - apply emitted_refl.
  - change (for_in (key :: keys) body w)
      with ((body key ;; for_in keys body) w).
    rewrite bind_unfold. specialize (Hbody key w).
    destruct (body key w) as [[] w1|e w1]; [|done].
    eapply emitted_trans; [exact Hbody|apply IH].
Qed.

Lemma field_loop_emitted this value newState oldState w :
  emitted this "change" w (world_of (field_loop this value newState oldState w)).
Proof.
  unfold field_loop. rewrite bind_unfold.
  destruct (Object_keys value w) as [keys w1|e w1] eqn:Hk.
  - assert (w1 = w) as ->.
    { unfold Object_keys in Hk. destruct value; congruence. }
    apply for_in_emitted. clear Hk. clear w. intros key w.
    rewrite bind_unfold.
    destruct (get_prop oldState key w) as [o w1|e w1] eqn:Ho.
    + assert (w1 = w) as ->.
      { unfold get_prop in Ho. destruct oldState; try congruence.
        destruct (String.eqb _ _); congruence. }
      rewrite bind_unfold.
      destruct (get_prop newState key w) as [n w1|e w1] eqn:Hn.
      * assert (w1 = w) as ->.
        { unfold get_prop in Hn. destruct newState; try congruence.
          destruct (String.eqb _ _); congruence. }
        destruct (negb (strict_eq n o)); [|apply emitted_refl].
        rewrite bind_unfold.
        pose proof (emit_emitted this "change" [n; o] w) as He.
        by destruct (emit this "change" [n; o] w).
      * assert (w1 = w) as ->.
        { unfold get_prop in Hn. destruct newState; try congruence.
          destruct (String.eqb _ _); congruence. }
        apply emitted_refl.
    + assert (w1 = w) as ->.
      { unfold get_prop in Ho. destruct oldState; try congruence.
        destruct (String.eqb _ _); congruence. }
      apply emitted_refl.
  - assert (w1 = w) as ->.
    { unfold Object_keys in Hk. destruct value; congruence. }
    apply emitted_refl.
Qed.
End frame.

(** The object at [l] is the same in both stores. *)
Definition same_at (l : nat) (h h' : list (gmap string val)) : Prop :=
  is_Some (h !! l) → h' !! l = h !! l.

#[global] Instance same_at_preorder l : PreOrder (same_at l).
Proof.
  split.
  - by intros h.
  - intros h1 h2 h3 H12 H23 Hl. unfold same_at in *.
    rewrite H23, H12; [done|done|]. by rewrite H12.
Qed.

Lemma listeners_keep_respects this ev l w :
  listeners_keep this ev l w →
  Forall (λ f, respects (same_at l) (lbody f)) (subscribers this ev w).
Proof. done. Qed.

(** The ['statechange'] calls a [setState] on [w] is to make. *)
Definition statechange_calls (this : nat) (w : World) : list call :=
  call_of this "statechange" [VRef (length (heap w)); snapshot this w]
    <$> subscribers this "statechange" w.

Definition is_change_of (this : nat) (c : call) : Prop :=
  c_emitter c = this ∧ c_event c = "change".

Lemma notify_private this value newState oldState w :
  private (world_of (notify this value newState oldState w)) = private w ∧
  listeners (world_of (notify this value newState oldState w)) = listeners w.
Proof.
  unfold notify. rewrite bind_unfold.
  pose proof (emit_emitted eq this "statechange" [newState; oldState] w) as [Hp Hl _ _].
  destruct (emit this "statechange" [newState; oldState] w) as [b w1|e w1]; [|done].
  pose proof (field_loop_emitted eq this value newState oldState w1) as [Hp' Hl' _ _].
  simpl in *. split; congruence.
Qed.

Lemma notify_calls this value newState oldState w :
  ∃ n cc, (n ≤ length (subscribers this "statechange" w))%nat ∧
    calls (world_of (notify this value newState oldState w)) =
      calls w
      ++ (call_of this "statechange" [newState; oldState]
            <$> take n (subscribers this "statechange" w))
      ++ cc ∧
    Forall (is_change_of this) cc ∧
    (returned (notify this value newState oldState w) →
     n = length (subscribers this "statechange" w)) ∧
    (listeners_quiet this "statechange" w →
     n = length (subscribers this "statechange" w)).
Proof.
  unfold notify. rewrite bind_unfold, emit_eq.
  destruct (invoke_all_calls this "statechange" [newState; oldState]
              (subscribers this "statechange" w) w) as (n & Hn & Hc & Hr).
  pose proof (invoke_all_quiet this "statechange" [newState; oldState]
                (subscribers this "statechange" w) w) as Hq.
  destruct (invoke_all _ _ _ _ w) as [[] w1|e w1]; simpl in *.
  - pose proof (field_loop_emitted eq this value newState oldState w1)
      as [_ _ (cc & Hcc & Hf) _].
    exists n, cc. rewrite Hcc, Hc, <- (assoc_L (++)).
    split; [done|]. split; [done|]. split; [done|]. split; [auto|].
    intros Hquiet. apply Hr, Hq, Hquiet.
  - exists n, []. rewrite Hc, !(right_id_L [] (++)).
    split; [done|]. split; [done|]. split; [constructor|]. split; [done|].
    intros Hquiet. apply Hr, Hq, Hquiet.
Qed.

Lemma notify_heap (Rh : relation (list (gmap string val))) `{!PreOrder Rh}
    this value newState oldState w :
  Forall (λ f, respects Rh (lbody f)) (subscribers this "statechange" w) →
  Forall (λ f, respects Rh (lbody f)) (subscribers this "change" w) →
  Rh (heap w) (heap (world_of (notify this value newState oldState w))).
Proof.
  intros Hs Hc. unfold notify. rewrite bind_unfold.
  pose proof (emit_emitted Rh this "statechange" [newState; oldState] w) as [_ Hl _ Hh].
  destruct (emit this "statechange" [newState; oldState] w) as [b w1|e w1];
    simpl in *; [|by apply Hh].
  pose proof (field_loop_emitted Rh this value newState oldState w1) as [_ _ _ Hh'].
  etrans; [by apply Hh|]. apply Hh'. unfold subscribers in *. by rewrite Hl.
Qed.

(** ** The getter and the constructor, computed *)

Lemma state_eq this w :
  state this w =
  if truthy (snapshot this w) then
    Ok (VRef (length (heap w)))
       {| heap := heap w ++ [own_props (heap w) (snapshot this w)];
          private := private w; listeners := listeners w; calls := calls w |}
  else Ok (snapshot this w) w.
Proof.
  unfold state, snapshot, instance_id. simpl own_props.
  do 2 (rewrite bind_unfold; simpl).
  remember (default VUndef (PrivateStates.states (private w) !! _)) as s eqn:Hs.
  clear Hs. destruct (truthy s); [|done].
  rewrite bind_unfold; simpl. unfold set_heap; simpl.
  rewrite alter_at_length.
  rewrite (own_props_app_empty (heap w) s [∅]) by (repeat constructor).
  by rewrite (right_id_L ∅ (∪)).
Qed.

(** The instance object as the constructor leaves it. *)
Definition fresh_instance (w : World) : gmap string val :=
  {[ "_id" := VNum (PrivateStates.id (private w) + 1) ]}.

Lemma constructor_eq initialState w :
  constructor initialState w =
  let this := length (heap w) in
  let n := (PrivateStates.id (private w) + 1)%Z in
  match initialState with
  | Some getter =>
      match getter this (heap w ++ [fresh_instance w]) with
      | (h, inr v) =>
          Ok this
             {| heap := h;
                private := {| PrivateStates.id := n;
                              PrivateStates.states :=
                                <[pretty n := v]> (PrivateStates.states (private w)) |};
                listeners := listeners w; calls := calls w |}
      | (h, inl e) =>
          Throw e
             {| heap := h;
                private := {| PrivateStates.id := n;
                              PrivateStates.states := PrivateStates.states (private w) |};
                listeners := listeners w; calls := calls w |}
      end
  | None =>
      Ok this
         {| heap := heap w ++ [fresh_instance w];
            private := {| PrivateStates.id := n;
                          PrivateStates.states :=
                            <[pretty n := VUndef]> (PrivateStates.states (private w)) |};
            listeners := listeners w; calls := calls w |}
  end.
Proof.
  unfold constructor, fresh_instance.
  do 4 (rewrite bind_unfold; simpl).
  rewrite alter_at_length. simpl.
  rewrite list_lookup_middle by done. simpl.
  rewrite insert_empty, lookup_singleton_eq. simpl.
  destruct initialState as [getter|].
  - rewrite bind_unfold. unfold lift_user. simpl. rewrite alter_at_length.
    rewrite insert_empty.
    destruct (getter _ _) as [h [e|v]]; [done|].
    by rewrite bind_unfold.
  - do 2 (rewrite bind_unfold; simpl). unfold set_private, set_heap. simpl.
    by rewrite alter_at_length, insert_empty.
Qed.

(** ** Programs used as examples *)

(** A listener that returns at once. *)
Definition quiet (name : string) : listener :=
  Listener name (λ _ h, (h, inr ())).

(** A listener that throws. *)
Definition failing (name : string) : listener :=
  Listener name (λ _ h, (h, inl (Thrown (VStr "boom")))).

(** [(newState) => { newState[k] = v; }], for a name [k] other than
    [__proto__]. *)
Definition poke (k : string) (v : val) : list val → user unit := λ args h,
  match args with
  | VRef l :: _ => (alter (insert k v) l h, inr ())
  | _ => (h, inr ())
  end.

(** [get initialState() { return {...}; }]: a new object at every call. *)
Definition literal (o : gmap string val) : nat → user val :=
  λ _ h, (h ++ [o], inr (VRef (length h))).

Definition a1 : gmap string val := {[ "a" := VNum 1 ]}.
Definition a1b2 : gmap string val := {[ "a" := VNum 1; "b" := VNum 2 ]}.
Definition a1b3 : gmap string val := {[ "a" := VNum 1; "b" := VNum 3 ]}.
Definition b2 : gmap string val := {[ "b" := VNum 2 ]}.
Definition b3 : gmap string val := {[ "b" := VNum 3 ]}.

(** An instance with state [{a: 1, b: 2}], two ['statechange'] listeners and
    a ['change'] listener; then the object [o] is built.  The instance is
    object 0, its snapshot object 1 and [o] object 2. *)
Definition ab_program (o : gmap string val) : M val :=
  e ← constructor (Some (literal a1b2));
  on e "statechange" (quiet "S1");;
  on e "statechange" (quiet "S2");;
  on e "change" (quiet "C");;
  alloc o.

Definition ab_world (o : gmap string val) : World :=
  world_of (ab_program o initial_world).

(** An instance of the base class, which has no [initialState], with the
    same listeners; then [{a: 1}] is built as object 1. *)
Definition base_program : M val :=
  e ← constructor None;
  on e "statechange" (quiet "S1");;
  on e "statechange" (quiet "S2");;
  on e "change" (quiet "C");;
  alloc a1.

Definition base_world : World := world_of (base_program initial_world).




(** The same with three ['statechange'] listeners, the second of which
    throws. *)
Definition stopping_program : M val :=
  e ← constructor (Some (literal a1b2));
  on e "statechange" (quiet "S1");;
  on e "statechange" (failing "F");;
  on e "statechange" (quiet "S3");;
  alloc b3.

Definition stopping_world : World := world_of (stopping_program initial_world).

(** ** The notifications of [setState] *)

(** The listeners a notification reaches, said without the log: each runs
    on the store the one before it left, and the first that throws is the
    last. *)
Fixpoint called (args : list val) (ls : list listener)
    (h : list (gmap string val)) : list listener :=
  match ls with
  | [] => []
  | l :: rest =>
      match lbody l args h with
      | (h', inr _) => l :: called args rest h'
      | (_, inl _) => [l]
      end
  end.

(** What the first listener that throws has thrown, if one does. *)
Fixpoint thrown (args : list val) (ls : list listener)
    (h : list (gmap string val)) : option exn :=
  match ls with
  | [] => None
  | l :: rest =>
      match lbody l args h with
      | (h', inr _) => thrown args rest h'
      | (_, inl e) => Some e
      end
  end.

Lemma called_all args ls h : thrown args ls h = None → called args ls h = ls.
Proof.
  revert h. induction ls as [|l ls IH]; intros h; simpl; [done|].
  destruct (lbody l args h) as [h' [e|[]]]; [done|].
  intros Hn. by rewrite IH.
Qed.

Lemma called_stops args ls h e :
  thrown args ls h = Some e →
  ∃ pre f post, ls = pre ++ f :: post ∧ called args ls h = pre ++ [f].
Proof.
  revert h. induction ls as [|l ls IH]; intros h; simpl; [done|].
  destruct (lbody l args h) as [h' [e'|[]]].
  - intros _. by exists [], l, ls.
  - intros Hs. destruct (IH h' Hs) as (pre & f & post & -> & ->).
    by exists (l :: pre), f, post.
Qed.

Lemma invoke_all_called this ev args ls w :
  calls (world_of (invoke_all this ev args ls w)) =
    calls w ++ (call_of this ev args <$> called args ls (heap w)) ∧
  match thrown args ls (heap w) with
  | None => returned (invoke_all this ev args ls w)
  | Some e => ∃ w', invoke_all this ev args ls w = Throw e w'
  end.
Proof.
  revert w. induction ls as [|l ls IH]; intros w.
  - simpl. by rewrite (right_id_L [] (++)).
  - rewrite invoke_all_cons, invoke_eq. simpl.
    destruct (lbody l args (heap w)) as [h [e|[]]].
    + split; [done|]. by eexists.
    + match goal with |- context [invoke_all _ _ _ _ ?w1] =>
        destruct (IH w1) as [Hc Ht] end.
      simpl in *. rewrite Hc. split; [|done].
      by rewrite <- (assoc_L (++)).
Qed.

(** The calls of a [setState] on an existing instance: ['statechange']
    calls to the listeners reached, on a store that extends the old one,
    then ['change'] calls only. *)
Lemma setState_calls_run this value w :
  (this < length (heap w))%nat →
  let args := [VRef (length (heap w)); snapshot this w] in
  let subs := subscribers this "statechange" w in
  ∃ h1 cc,
    heap w `prefix_of` h1 ∧
    calls (world_of (setState this value w)) =
      calls w ++ (call_of this "statechange" args <$> called args subs h1) ++ cc ∧
    Forall (is_change_of this) cc ∧
    (thrown args subs h1 = None → called args subs h1 = subs) ∧
    (∀ e, thrown args subs h1 = Some e →
       (∃ w', setState this value w = Throw e w') ∧ cc = [] ∧
       ∃ pre f post, subs = pre ++ f :: post ∧ called args subs h1 = pre ++ [f]) ∧
    (returned (setState this value w) → called args subs h1 = subs).
Proof.
  intros Hlt args subs.
  exists (heap (after_store this value w)).
  rewrite setState_eq by done. unfold notify. rewrite bind_unfold, emit_eq.
  change (subscribers this "statechange" (after_store this value w)) with subs.
  fold args.
  destruct (invoke_all_called this "statechange" args subs (after_store this value w))
    as [Hc Ht].
  destruct (thrown args subs (heap (after_store this value w))) as [e|] eqn:Hth.
  - destruct Ht as [w' Hw']. rewrite Hw' in Hc |- *. simpl in *.
    exists []. split; [by apply prefix_app_r|].
    split; [by rewrite (right_id_L [] (++))|]. split; [constructor|].
    split; [done|]. split; [|done].
    intros e' [= <-]. split; [by eexists|]. split; [done|].
    by eapply called_stops.
  - destruct (invoke_all this "statechange" args subs (after_store this value w))
      as [[] w1|e w1]; [|done]. simpl in *.
    pose proof (field_loop_emitted eq this value (VRef (length (heap w)))
                  (snapshot this w) w1) as [_ _ (cc & Hcc & Hf) _].
    exists cc. split; [by apply prefix_app_r|].
    split; [by rewrite Hcc, Hc, <- (assoc_L (++))|]. split; [done|].
    split; [intros _; by apply called_all|]. split; [done|].
    intros _. by apply called_all.
Qed.

(** The wording under test: a [setState] calls every listener of
    ['statechange']. *)
Definition statechange_reaches_all (this : nat) (value : val) (w : World) : Prop :=
  ∀ c, c ∈ statechange_calls this w → c ∈ calls (world_of (setState this value w)).

(** C4, as worded, fails: when the second listener of ['statechange']
    throws, the third is not called. *)
Lemma statechange_stops_at_throw :
  ¬ statechange_reaches_all 0 (VRef 2) stopping_world.
Proof.
  intros Hall.
  specialize (Hall (Call 0 "statechange" "S3" [VRef 3; VRef 1])).
  assert (¬ Call 0 "statechange" "S3" [VRef 3; VRef 1]
            ∈ calls (world_of (setState 0 (VRef 2) stopping_world))) as Hn.
  { apply (bool_decide_eq_false_1 _). vm_compute. reflexivity. }
  apply Hn, Hall.
  apply (bool_decide_eq_true_1 _). vm_compute. reflexivity.
Qed.

(** C4, amended.  Every [setState] on an existing instance emits
    ['statechange'] once, with the reference it has stored as the snapshot
    and the snapshot stored before as arguments: what it adds to the log is
    one ['statechange'] call, with these arguments, to each listener
    reached, in registration order, followed by ['change'] calls only.  The
    listeners reached are all of them when none throws, so whenever
    [setState] returns; when one throws they are those up to and including
    it, [setState] raises what it threw and makes no further call.  Nothing
    depends on whether [value] changes a field. *)
Theorem setState_emits_statechange this value w :
  (this < length (heap w))%nat →
  let args := [VRef (length (heap w)); snapshot this w] in
  let subs := subscribers this "statechange" w in
  ∃ h1 cc,
    heap w `prefix_of` h1 ∧
    calls (world_of (setState this value w)) =
      calls w ++ (call_of this "statechange" args <$> called args subs h1) ++ cc ∧
    Forall (is_change_of this) cc ∧
    (thrown args subs h1 = None → called args subs h1 = subs) ∧
    (∀ e, thrown args subs h1 = Some e →
       (∃ w', setState this value w = Throw e w') ∧ cc = [] ∧
       ∃ pre f post, subs = pre ++ f :: post ∧ called args subs h1 = pre ++ [f]) ∧
    (returned (setState this value w) → called args subs h1 = subs) ∧
    PrivateStates.states (private (world_of (setState this value w)))
      !! to_key (instance_id this w) = Some (VRef (length (heap w))).
Proof.
  intros Hlt args subs.
  destruct (setState_calls_run this value w Hlt)
    as (h1 & cc & Hpre & Hc & Hcc & Hnone & Hsome & Hret).
  exists h1, cc. repeat (split; [done|]).
  rewrite setState_eq by done.
  destruct (notify_private this value (VRef (length (heap w))) (snapshot this w)
              (after_store this value w)) as [Hp _].
  rewrite Hp. simpl. by rewrite lookup_insert_eq.
Qed.

Lemma setState_emits_statechange_witness :
  calls (world_of (setState 0 (VRef 2) (ab_world b2))) =
    calls (ab_world b2) ++ statechange_calls 0 (ab_world b2).
Proof.
  destruct (setState_emits_statechange 0 (VRef 2) (ab_world b2))
    as (h1 & cc & _ & Hc & Hcc & _ & _ & Hret & _).
  - vm_compute; lia.
  - rewrite Hc, Hret by (vm_compute; exact I).
    assert (cc = []) as ->.
    { assert (length (calls (world_of (setState 0 (VRef 2) (ab_world b2)))) = 2%nat)
        as Hlen by (vm_compute; reflexivity).
      rewrite Hc, Hret in Hlen by (vm_compute; exact I).
      rewrite !length_app, length_fmap in Hlen.
      destruct cc; [done|]. simpl in Hlen.
      assert (length (calls (ab_world b2)) = 0%nat) as H0 by reflexivity.
      assert (length (subscribers 0 "statechange" (ab_world b2)) = 2%nat) as H2
        by reflexivity.
      lia. }
    by rewrite (right_id_L [] (++)).
Defined.

(** C1.  On [{a: 1, b: 2}], [setState({b: 3})] returns having called the
    ['statechange'] listeners and no ['change'] listener, although [b] went
    from 2 to 3: the loop [for (const key in Object.keys(value))] runs over
    the index ["0"] of the array of names, not over the name ["b"], and
    neither snapshot has a field ["0"].  With [{b: 2}] there is no ['change']
    call either. *)
Theorem setState_change_missed :
  let r := setState 0 (VRef 2) (ab_world b3) in
  returned r ∧
  heap (ab_world b3) !! 1%nat = Some a1b2 ∧
  heap (world_of r) !! 3%nat = Some a1b3 ∧
  calls (world_of r) =
    [ Call 0 "statechange" "S1" [VRef 3; VRef 1];
      Call 0 "statechange" "S2" [VRef 3; VRef 1] ] ∧
  calls (world_of (setState 0 (VRef 2) (ab_world b2))) =
    [ Call 0 "statechange" "S1" [VRef 3; VRef 1];
      Call 0 "statechange" "S2" [VRef 3; VRef 1] ].
Proof. vm_compute. repeat split; reflexivity. Qed.

(** C5.  On an instance of the base class, whose snapshot is [undefined],
    [setState({a: 1})] throws a [TypeError]: [oldState || {}] guards the
    merge, but the loop reads [oldState[key]] on [undefined].  The merged
    snapshot [{a: 1}] is stored all the same. *)
Theorem setState_absent_snapshot_throws :
  snapshot 0 base_world = VUndef ∧
  ∃ w', setState 0 (VRef 1) base_world = Throw TypeError w' ∧
        snapshot 0 w' = VRef 2 ∧ heap w' !! 2%nat = Some a1.
Proof. vm_compute. split; [reflexivity|]. eexists. repeat split; reflexivity. Qed.

(** ** The snapshot after [setState] *)

(** The listeners of both events of [this] leave the object at [l] alone. *)
Definition leaves (this l : nat) (w : World) : Prop :=
  listeners_keep this "statechange" l w ∧ listeners_keep this "change" l w.

Lemma after_store_old this value w l :
  (l < length (heap w))%nat → heap (after_store this value w) !! l = heap w !! l.
Proof. intros Hlt. simpl. by rewrite lookup_app_l. Qed.

Lemma after_store_new this value w :
  heap (after_store this value w) !! length (heap w) = Some (merged this value w).
Proof. simpl. by rewrite list_lookup_middle. Qed.

Lemma after_store_is_Some this value w l :
  (l ≤ length (heap w))%nat → is_Some (heap (after_store this value w) !! l).
Proof.
  intros Hle. apply lookup_lt_is_Some. simpl. rewrite length_app. simpl. lia.
Qed.

Lemma setState_private this value w :
  (this < length (heap w))%nat →
  private (world_of (setState this value w)) = private (after_store this value w) ∧
  listeners (world_of (setState this value w)) = listeners w.
Proof.
  intros Hlt. rewrite setState_eq by done.
  destruct (notify_private this value (VRef (length (heap w))) (snapshot this w)
              (after_store this value w)) as [Hp Hl].
  by rewrite Hp, Hl.
Qed.

Lemma setState_leaves this value w l :
  (this < length (heap w))%nat → (l ≤ length (heap w))%nat → leaves this l w →
  heap (world_of (setState this value w)) !! l = heap (after_store this value w) !! l.
Proof.
  intros Hlt Hle [Hs Hc]. rewrite setState_eq by done.
  apply (notify_heap (same_at l)); [done|done|].
  by apply after_store_is_Some.
Qed.

Lemma setState_instance_id this value w :
  (this < length (heap w))%nat → leaves this this w →
  instance_id this (world_of (setState this value w)) = instance_id this w.
Proof.
  intros Hlt Hk. unfold instance_id. simpl.
  by rewrite setState_leaves, after_store_old by (done || lia).
Qed.

Lemma setState_snapshot this value w :
  (this < length (heap w))%nat → leaves this this w →
  snapshot this (world_of (setState this value w)) = VRef (length (heap w)).
Proof.
  intros Hlt Hk. unfold snapshot.
  rewrite setState_instance_id by done.
  destruct (setState_private this value w Hlt) as [-> _]. simpl.
  by rewrite lookup_insert_eq.
Qed.

(** The read that follows a [setState] whose listeners leave the instance
    and the new snapshot alone. *)
Lemma state_after_setState this value w :
  (this < length (heap w))%nat →
  leaves this this w → leaves this (length (heap w)) w →
  let w' := world_of (setState this value w) in
  ∃ w'', state this w' = Ok (VRef (length (heap w'))) w'' ∧
         heap w'' !! length (heap w') = Some (merged this value w).
Proof.
  intros Hlt Hthis Hnew w'. subst w'.
  rewrite state_eq, setState_snapshot by done. simpl.
  eexists. split; [reflexivity|]. simpl.
  by rewrite list_lookup_middle, setState_leaves, after_store_new.
Qed.

(** An instance with state [{a: 1, b: 2}] whose ['statechange'] listener
    sets the field ["a"] of the new snapshot to 9. *)
Definition poke_program : M val :=
  e ← constructor (Some (literal a1b2));
  on e "statechange" (Listener "P" (poke "a" (VNum 9)));;
  on e "change" (quiet "C");;
  alloc b3.

Definition poke_world : World := world_of (poke_program initial_world).



(** ** Reads *)

Lemma set_prop_world l k v w :
  world_of (set_prop l k v w) =
  {| heap := alter (insert k v) l (heap w); private := private w;
     listeners := listeners w; calls := calls w |}.
Proof. reflexivity. Qed.

(** C3.  On an instance whose snapshot is the object [old] at [ls], a read
    returns a reference [l] that no object of the world had before, so it is
    neither the stored snapshot nor a copy handed out earlier; the object at
    [l] has the fields of [old], the name [__proto__] apart, and nothing
    else changes.  Writing any field of the copy leaves the stored snapshot
    [old] at [ls], and the next read returns one more new object with the
    fields of [old].  An instance constructed with initial state [{a: 1}]
    reads as a new object [{a: 1}] that is not the stored snapshot. *)
Theorem state_returns_fresh_copy :
  (∀ this ls old w,
     (this < length (heap w))%nat →
     snapshot this w = VRef ls → heap w !! ls = Some old →
     let l := length (heap w) in
     ∃ w' copy,
       state this w = Ok (VRef l) w' ∧
       l ≠ ls ∧ heap w !! l = None ∧
       heap w' = heap w ++ [copy] ∧
       (∀ k, k ≠ "__proto__" → copy !! k = old !! k) ∧
       (old !! "__proto__" = None → copy = old) ∧
       private w' = private w ∧
       ∀ k v, let w'' := world_of (set_prop l k v w') in
         snapshot this w'' = VRef ls ∧ heap w'' !! ls = Some old ∧
         ∃ w3 copy',
           state this w'' = Ok (VRef (1 + l)%nat) w3 ∧
           heap w3 !! (1 + l)%nat = Some copy' ∧
           (∀ k', k' ≠ "__proto__" → copy' !! k' = old !! k')) ∧
  (∀ w, ∃ this w1 l w2,
     constructor (Some (literal a1)) w = Ok this w1 ∧
     state this w1 = Ok (VRef l) w2 ∧
     heap w2 !! l = Some a1 ∧
     heap w1 !! l = None ∧ snapshot this w1 ≠ VRef l).
Proof.
  split.
  - intros this ls old w Hlt Hs HS l.
    assert (ls < length (heap w))%nat as Hls by (by eapply lookup_lt_Some).
    rewrite state_eq, Hs. simpl. rewrite HS. simpl.
    eexists _, old. split; [reflexivity|]. simpl.
    split; [subst l; lia|]. split; [by apply lookup_ge_None_2|].
    split; [done|]. split; [done|]. split; [done|]. split; [done|].
    intros k v. unfold set_heap. simpl.
    assert (alter (insert k v) l (heap w ++ [old]) !! ls = Some old) as HS'.
    { rewrite list_lookup_alter_ne by (subst l; lia). by rewrite lookup_app_l. }
    assert (snapshot this
              {| heap := alter (insert k v) l (heap w ++ [old]);
                 private := private w; listeners := listeners w;
                 calls := calls w |} = VRef ls) as Hs'.
    { rewrite <- Hs. unfold snapshot, instance_id. simpl.
      rewrite list_lookup_alter_ne by (subst l; lia).
      by rewrite lookup_app_l. }
    split; [done|]. split; [done|].
    rewrite state_eq, Hs'. simpl. rewrite HS'. simpl.
    assert (length (alter (insert k v) l (heap w ++ [old])) = S l) as Hlen.
    { rewrite length_alter, length_app. simpl. subst l. lia. }
    eexists _, old. split; [by rewrite Hlen|]. split; [|done].
    simpl. rewrite <- Hlen. by rewrite list_lookup_middle.
  - intros w. rewrite constructor_eq. simpl.
    eexists _, _, _, _. split; [reflexivity|].
    rewrite state_eq. unfold snapshot, instance_id, fresh_instance. simpl.
    rewrite lookup_app_l by (rewrite length_app; simpl; lia).
    rewrite list_lookup_middle by done. simpl.
    rewrite lookup_singleton_eq. simpl. rewrite lookup_insert_eq. simpl.
    split; [reflexivity|]. simpl.
    rewrite list_lookup_middle by done.
    rewrite lookup_app_r by (rewrite length_app; simpl; lia).
    rewrite length_app. simpl.
    replace (length (heap w) + 1 - (length (heap w) + 1))%nat with 0%nat by lia.
    simpl. split; [done|].
    split; [apply lookup_ge_None_2; rewrite !length_app; simpl; lia|].
    rewrite !length_app. simpl. intros [=]. lia.
Qed.

Lemma state_returns_fresh_copy_witness :
  ∃ w', state 0 (ab_world b3) = Ok (VRef 3) w' ∧
        heap w' = heap (ab_world b3) ++ [a1b2] ∧
        snapshot 0 (world_of (set_prop 3 "a" (VNum 9) w')) = VRef 1 ∧
        heap (world_of (set_prop 3 "a" (VNum 9) w')) !! 1%nat = Some a1b2.
Proof.
  destruct (proj1 state_returns_fresh_copy 0%nat 1%nat a1b2 (ab_world b3))
    as (w' & copy & Hst & _ & _ & Hh & _ & Hcopy & _ & Hmut).
  - vm_compute; lia.
  - reflexivity.
  - reflexivity.
  - exists w'. destruct (Hmut "a" (VNum 9)) as (Hs & HS & _).
    split; [exact Hst|]. split; [|split; [exact Hs|exact HS]].
    rewrite Hh, Hcopy; [done|]. reflexivity.
Defined.
(** ** Other instances and the value passed *)

Lemma setState_calls_of this value w :
  (this < length (heap w))%nat →
  ∃ cs, calls (world_of (setState this value w)) = calls w ++ cs ∧
        Forall (λ c, c_emitter c = this) cs.
Proof.
  intros Hlt. rewrite setState_eq by done.
  destruct (notify_calls this value (VRef (length (heap w))) (snapshot this w)
              (after_store this value w)) as (n & cc & _ & Hc & Hcc & _).
  eexists. split; [exact Hc|]. apply Forall_app. split.
  - apply Forall_fmap, Forall_forall. by intros l _.
  - eapply Forall_impl; [exact Hcc|]. by intros c [? _].
Qed.

(** C6.  Two instances whose [_id]s are different numbers are different
    objects, and a [setState] on [A] leaves the entry of [B] in
    [PrivateStates.states] as it was, whatever the outcome; every listener
    call it makes is a call of a listener of [A], none of a listener
    registered on [B].  When the listeners of [A] do not write to [B] or to
    the object that is the snapshot of [B], [B] reads the same snapshot, with
    the same fields, afterwards. *)
Theorem setState_leaves_other_instance A B a b value w :
  (A < length (heap w))%nat → (B < length (heap w))%nat →
  instance_id A w = VNum a → instance_id B w = VNum b → a ≠ b →
  let w' := world_of (setState A value w) in
  A ≠ B ∧
  PrivateStates.states (private w') !! to_key (VNum b) =
    PrivateStates.states (private w) !! to_key (VNum b) ∧
  (∃ cs, calls w' = calls w ++ cs ∧ Forall (λ c, c_emitter c ≠ B) cs) ∧
  (leaves A B w → snapshot B w' = snapshot B w) ∧
  (∀ l, snapshot B w = VRef l → (l < length (heap w))%nat → leaves A l w →
        heap w' !! l = heap w !! l).
Proof.
  intros HA HB Ha Hb Hab w'. subst w'.
  assert (A ≠ B) as HAB by (intros ->; congruence).
  assert (PrivateStates.states (private (world_of (setState A value w)))
            !! to_key (VNum b) =
          PrivateStates.states (private w) !! to_key (VNum b)) as Hentry.
  { destruct (setState_private A value w HA) as [-> _]. simpl.
    rewrite Ha. simpl. rewrite lookup_insert_ne; [done|].
    intros Heq. by apply (inj pretty) in Heq. }
  split; [done|]. split; [done|]. split; [|split].
  - destruct (setState_calls_of A value w HA) as (cs & Hc & Hf).
    exists cs. split; [done|]. eapply Forall_impl; [exact Hf|].
    simpl. intros c ->. done.
  - intros HkB. unfold snapshot, instance_id. simpl.
    rewrite setState_leaves, after_store_old by (done || lia).
    fold (own_props (heap w) (VRef B)). fold (instance_id B w).
    rewrite Hb. by rewrite Hentry.
  - intros l _ Hl Hkl. by rewrite setState_leaves, after_store_old by (done || lia).
Qed.

(** Two instances with different initial states, each with a listener of
    each event, and an object [{b: 3}].  The first instance is object 0 with
    snapshot 1, the second object 2 with snapshot 3, [{b: 3}] object 4. *)
Definition two_program : M val :=
  e1 ← constructor (Some (literal a1));
  e2 ← constructor (Some (literal a1b2));
  on e1 "statechange" (quiet "S1");;
  on e1 "change" (quiet "C1");;
  on e2 "statechange" (quiet "S2");;
  on e2 "change" (quiet "C2");;
  alloc b3.

Definition two_world : World := world_of (two_program initial_world).

Lemma setState_leaves_other_instance_witness :
  let w' := world_of (setState 0 (VRef 4) two_world) in
  snapshot 2 w' = snapshot 2 two_world ∧
  heap w' !! 3%nat = heap two_world !! 3%nat ∧
  ∃ cs, calls w' = calls two_world ++ cs ∧ Forall (λ c, c_emitter c ≠ 2%nat) cs.
Proof.
  destruct (setState_leaves_other_instance 0 2 1 2 (VRef 4) two_world)
    as (_ & _ & Hc & Hs & Hh).
  - vm_compute; lia.
  - vm_compute; lia.
  - reflexivity.
  - reflexivity.
  - discriminate.
  - split; [|split].
    + apply Hs. split; repeat constructor.
    + apply Hh; [reflexivity|vm_compute; lia|split; repeat constructor].
    + exact Hc.
Defined.

(** C7.  [setState] with the object [pv] at [lv] stores a reference to an
    object of its own making, never [lv], whatever the outcome.  When the
    listeners do not write to the instance, writing a field of [pv]
    afterwards changes nothing in what [state] returns: the same reference
    and an object with the same fields. *)
Theorem setState_does_not_store_value this lv pv w :
  (this < length (heap w))%nat → heap w !! lv = Some pv → this ≠ lv →
  let w' := world_of (setState this (VRef lv) w) in
  PrivateStates.states (private w') !! to_key (instance_id this w)
    = Some (VRef (length (heap w))) ∧
  length (heap w) ≠ lv ∧
  (leaves this this w →
   snapshot this w' ≠ VRef lv ∧
   ∀ k v, ∃ c w1 w2,
     state this w' = Ok (VRef c) w1 ∧
     state this (world_of (set_prop lv k v w')) = Ok (VRef c) w2 ∧
     heap w2 !! c = heap w1 !! c).
Proof.
  intros Hlt Hpv Hne w'. subst w'.
  assert (lv < length (heap w))%nat as Hlv by (by eapply lookup_lt_Some).
  split; [|split; [lia|]].
  - destruct (setState_private this (VRef lv) w Hlt) as [-> _]. simpl.
    by rewrite lookup_insert_eq.
  - intros Hk.
    pose proof (setState_snapshot this (VRef lv) w Hlt Hk) as Hs.
    split; [rewrite Hs; intros [=]; lia|].
    intros k v. set (w' := world_of (setState this (VRef lv) w)) in *.
    assert (snapshot this (world_of (set_prop lv k v w')) = VRef (length (heap w)))
      as Hs'.
    { rewrite <- Hs. unfold snapshot, instance_id. simpl.
      by rewrite list_lookup_alter_ne. }
    rewrite !state_eq, Hs, Hs'. simpl.
    eexists _, _, _. split; [reflexivity|]. split.
    + by rewrite length_alter.
    + simpl. rewrite list_lookup_middle by (by rewrite length_alter).
      rewrite list_lookup_middle by done.
      by rewrite list_lookup_alter_ne by lia.
Qed.

Lemma setState_does_not_store_value_witness :
  let w' := world_of (setState 0 (VRef 2) (ab_world b3)) in
  snapshot 0 w' ≠ VRef 2 ∧
  ∃ c w1 w2,
    state 0 w' = Ok (VRef c) w1 ∧
    state 0 (world_of (set_prop 2 "b" (VNum 7) w')) = Ok (VRef c) w2 ∧
    heap w2 !! c = heap w1 !! c.
Proof.
  destruct (setState_does_not_store_value 0 2 b3 (ab_world b3)) as (_ & _ & H).
  - vm_compute; lia.
  - reflexivity.
  - discriminate.
  - destruct H as [Hs Hr]; [split; repeat constructor|].
    split; [exact Hs|exact (Hr "b" (VNum 7))].
Defined.


(** ** The payload of ['statechange'] is the stored snapshot *)

(** The world after [n] further reads of [state]. *)
Fixpoint reads (n : nat) (this : nat) (w : World) : World :=
  match n with
  | O => w
  | S n' => reads n' this (world_of (state this w))
  end.






Example poke_read :
  ∃ w'', state 0 (world_of (setState 0 (VRef 2) poke_world)) = Ok (VRef 4) w'' ∧
         heap w'' !! 4%nat = Some {[ "a" := VNum 9; "b" := VNum 3 ]}.
Proof. eexists. split; vm_compute; reflexivity. Qed.

(** ** Errors in [setState] *)





(** The two cases on examples: the error of the field loop comes after all
    listeners, the error of a listener before those that follow it. *)
Example raise_from_loop :
  setState 0 (VRef 1) base_world
    = Throw TypeError (world_of (setState 0 (VRef 1) base_world)) ∧
  calls (world_of (setState 0 (VRef 1) base_world)) =
    [ Call 0 "statechange" "S1" [VRef 2; VUndef];
      Call 0 "statechange" "S2" [VRef 2; VUndef] ].
Proof. vm_compute. split; reflexivity. Qed.

Example raise_from_listener :
  setState 0 (VRef 2) stopping_world
    = Throw (Thrown (VStr "boom")) (world_of (setState 0 (VRef 2) stopping_world)) ∧
  calls (world_of (setState 0 (VRef 2) stopping_world)) =
    [ Call 0 "statechange" "S1" [VRef 3; VRef 1];
      Call 0 "statechange" "F" [VRef 3; VRef 1] ] ∧
  snapshot 0 (world_of (setState 0 (VRef 2) stopping_world)) = VRef 3.
Proof. vm_compute. repeat split; reflexivity. Qed.
(** ** Identities *)

(** No object of the first store has lost or changed its [_id] in the
    second. *)
Definition ids_kept (h h' : list (gmap string val)) : Prop :=
  ∀ l o, h !! l = Some o → ∃ o', h' !! l = Some o' ∧ o' !! "_id" = o !! "_id".

#[global] Instance ids_kept_preorder : PreOrder ids_kept.
Proof.
  split.
  - intros h l o Hl. by exists o.
  - intros h1 h2 h3 H12 H23 l o Hl.
    destruct (H12 l o Hl) as (o2 & Hl2 & Hid2).
    destruct (H23 l o2 Hl2) as (o3 & Hl3 & Hid3).
    exists o3. split; [done|]. congruence.
Qed.

(** The operations of a program on the class, and any other code it runs on
    the object store. *)
Inductive op :=
  | New (initialState : option (nat → user val))
  | Read (this : nat)
  | Update (this : nat) (value : val)
  | Subscribe (this : nat) (ev : string) (l : listener)
  | Code (f : user unit).

(** One operation; an exception is caught by the program, which goes on in
    the world the exception left.  The result names the instance a
    successful [new] made. *)
Definition run_op (o : op) (w : World) : World * list nat :=
  match o with
  | New initialState =>
      match constructor initialState w with
      | Ok this w' => (w', [this])
      | Throw _ w' => (w', [])
      end
  | Read this => (world_of (state this w), [])
  | Update this value => (world_of (setState this value w), [])
  | Subscribe this ev l => (world_of (on this ev l w), [])
  | Code f => (world_of (lift_user f w), [])
  end.

(** A sequence of operations, with the instances constructed, in order of
    construction. *)
Fixpoint run (ops : list op) (w : World) : World * list nat :=
  match ops with
  | [] => (w, [])
  | o :: rest =>
      let (w1, c) := run_op o w in
      let (w2, cs) := run rest w1 in
      (w2, c ++ cs)
  end.

















(** Two instances are made and used, then a third is made. *)
Definition first_ops : list op :=
  [ New (Some (literal a1));
    Code (λ h, (h ++ [b3], inr ()));
    New None;
    Subscribe 0 "statechange" (quiet "S");
    Update 0 (VRef 2);
    Read 0 ].

Definition later_ops : list op :=
  [ Update 3 (VRef 2);
    New (Some (literal a1b2));
    Read 8 ].


Example identities_of_run :
  (run later_ops (run first_ops initial_world).1).2 = [8%nat] ∧
  (run first_ops initial_world).2 = [0%nat; 3%nat] ∧
  let w2 := (run later_ops (run first_ops initial_world).1).1 in
  instance_id 0 w2 = VNum 1 ∧ instance_id 3 w2 = VNum 2 ∧ instance_id 8 w2 = VNum 3.
Proof. vm_compute. repeat split; reflexivity. Qed.
(** ** The field loop, run *)

(** The ['change'] calls the loop of [setState] makes over [keys], for the
    fields [old] of the old and [new] of the new snapshot and the listeners
    [subs]: one round of calls for every key whose values differ. *)
Definition change_calls (this : nat) (subs : list listener)
    (old new : gmap string val) (keys : list string) : list call :=
  mjoin ((λ key,
            let o := default VUndef (old !! key) in
            let n := default VUndef (new !! key) in
            if negb (strict_eq n o) then call_of this "change" [n; o] <$> subs
            else []) <$> keys).

Lemma emit_quiet this ev args w :
  listeners_quiet this ev w →
  ∃ b w1, emit this ev args w = Ok b w1 ∧
    private w1 = private w ∧ listeners w1 = listeners w ∧
    calls w1 = calls w ++ (call_of this ev args <$> subscribers this ev w) ∧
    ∀ l, is_Some (heap w !! l) → listeners_keep this ev l w →
         heap w1 !! l = heap w !! l.
Proof.
  intros Hq.
  pose proof (invoke_all_quiet this ev args _ w Hq) as Hret.
  destruct (invoke_all_calls this ev args (subscribers this ev w) w)
    as (n & _ & Hc & Hn).
  destruct (invoke_all_private this ev args (subscribers this ev w) w) as [Hp Hl].
  pose proof (λ l, invoke_all_heap (same_at l) this ev args
                     (subscribers this ev w) w) as Hh.
  rewrite emit_eq.
  destruct (invoke_all this ev args (subscribers this ev w) w) as [[] w1|e w1];
    [|done]. simpl in *.
  eexists _, w1. split; [reflexivity|]. split; [done|]. split; [done|].
  split; [|intros l Hl0 Hk; by apply Hh].
  by rewrite Hc, (Hn I), firstn_all.
Qed.

Lemma for_in_cons key keys body w :
  for_in (key :: keys) body w =
  match body key w with
  | Ok _ w' => for_in keys body w'
  | Throw e w' => Throw e w'
  end.
Proof. reflexivity. Qed.

Lemma change_calls_cons this subs old new key keys :
  change_calls this subs old new (key :: keys) =
  (if negb (strict_eq (default VUndef (new !! key)) (default VUndef (old !! key)))
   then call_of this "change"
          [default VUndef (new !! key); default VUndef (old !! key)] <$> subs
   else []) ++ change_calls this subs old new keys.
Proof. reflexivity. Qed.

(** The loop over [keys] on two objects that the ['change'] listeners leave
    alone, when these listeners return. *)
Lemma change_loop_run this ls l old new keys w :
  heap w !! ls = Some old → heap w !! l = Some new →
  listeners_quiet this "change" w →
  listeners_keep this "change" ls w → listeners_keep this "change" l w →
  ∃ w',
    for_in keys (λ key,
      o ← get_prop (VRef ls) key;
      n ← get_prop (VRef l) key;
      if negb (strict_eq n o) then emit this "change" [n; o] ;; mret ()
      else mret ()) w = Ok () w' ∧
    private w' = private w ∧ listeners w' = listeners w ∧
    calls w' = calls w ++ change_calls this (subscribers this "change" w) old new keys ∧
    ∀ l0, is_Some (heap w !! l0) → listeners_keep this "change" l0 w →
          heap w' !! l0 = heap w !! l0.
Proof.
  revert w. induction keys as [|key keys IH]; intros w Hold Hnew Hq Hkold Hknew.
  - exists w. split; [done|]. split; [done|]. split; [done|].
    split; [|done]. unfold change_calls. simpl. by rewrite (right_id_L [] (++)).
  - rewrite for_in_cons. do 2 (rewrite bind_unfold; simpl).
    rewrite Hold, Hnew. simpl. rewrite change_calls_cons.
    destruct (negb (strict_eq (default VUndef (new !! key))
                              (default VUndef (old !! key)))) eqn:Hdiff.
    + rewrite bind_unfold.
      destruct (emit_quiet this "change"
                  [default VUndef (new !! key); default VUndef (old !! key)] w Hq)
        as (b & w1 & -> & Hp & Hl & Hc & Hh). simpl.
      assert (subscribers this "change" w1 = subscribers this "change" w) as Hsub
        by (unfold subscribers; by rewrite Hl).
      destruct (IH w1) as (w' & -> & Hp' & Hl' & Hc' & Hh').
      * by rewrite Hh by (by rewrite ?Hold).
      * by rewrite Hh by (by rewrite ?Hnew).
      * unfold listeners_quiet. by rewrite Hsub.
      * unfold listeners_keep. by rewrite Hsub.
      * unfold listeners_keep. by rewrite Hsub.
      * exists w'. split; [done|]. split; [congruence|]. split; [congruence|].
        split.
        { rewrite Hc', Hc, Hsub. by rewrite <- (assoc_L (++)). }
        intros l0 Hl0 Hk0. rewrite Hh'; [by apply Hh| |].
        -- by rewrite Hh.
        -- unfold listeners_keep. by rewrite Hsub.
    + change (@mret M _ _ () w) with (Ok () w).
      destruct (IH w) as (w' & -> & Hp' & Hl' & Hc' & Hh'); try done.
      by exists w'.
Qed.

Lemma change_calls_same this subs old new keys :
  Forall (λ key, new !! key = old !! key) keys →
  change_calls this subs old new keys = [].
Proof.
  induction 1 as [|key keys Hkey _ IH]; [done|].
  rewrite change_calls_cons, IH, Hkey. unfold strict_eq.
  by rewrite bool_decide_eq_true_2.
Qed.

Lemma Object_keys_ref lv w :
  Object_keys (VRef lv) w = Ok (map_to_list (own_props (heap w) (VRef lv))).*1 w.
Proof. reflexivity. Qed.

Lemma array_indices_keys (m : gmap string val) :
  array_indices (map_to_list m).*1 = (λ i : nat, pretty i) <$> seq 0 (size m).
Proof. unfold array_indices. by rewrite length_fmap, length_map_to_list. Qed.

(** [setState] on an existing instance whose ['statechange'] listeners
    return: the world in which the field loop starts. *)
Lemma setState_to_loop this value w :
  (this < length (heap w))%nat →
  listeners_quiet this "statechange" w →
  ∃ w2,
    setState this value w =
      field_loop this value (VRef (length (heap w))) (snapshot this w) w2 ∧
    private w2 = private (after_store this value w) ∧
    listeners w2 = listeners w ∧
    calls w2 = calls w ++ statechange_calls this w ∧
    ∀ l, (l ≤ length (heap w))%nat → listeners_keep this "statechange" l w →
         heap w2 !! l = heap (after_store this value w) !! l.
Proof.
  intros Hlt Hq. rewrite setState_eq by done. unfold notify.
  rewrite bind_unfold.
  destruct (emit_quiet this "statechange"
              [VRef (length (heap w)); snapshot this w]
              (after_store this value w) Hq) as (b & w2 & -> & Hp & Hl & Hc & Hh).
  exists w2. repeat (split; [done|]).
  intros l Hle Hk. apply Hh; [|done]. by apply after_store_is_Some.
Qed.

(** ** More on [setState] *)

(** [setState] with an object on a snapshot object, run to its end, when
    the listeners return and leave the two objects and the new snapshot
    alone. *)
Lemma setState_run this ls old lv pv w :
  (this < length (heap w))%nat →
  snapshot this w = VRef ls → heap w !! ls = Some old → heap w !! lv = Some pv →
  listeners_quiet this "statechange" w → listeners_quiet this "change" w →
  leaves this ls w → leaves this lv w → leaves this (length (heap w)) w →
  ∃ w',
    setState this (VRef lv) w = Ok () w' ∧
    calls w' =
      calls w ++ statechange_calls this w
      ++ change_calls this (subscribers this "change" w) old (pv ∪ old)
           ((λ i : nat, pretty i) <$> seq 0 (size pv)).
Proof.
  intros Hlt Hs Hold Hpv Hqs Hqc [Hks1 Hkc1] [Hks2 Hkc2] [Hks3 Hkc3].
  assert (ls < length (heap w))%nat as Hls by (by eapply lookup_lt_Some).
  assert (lv < length (heap w))%nat as Hlv by (by eapply lookup_lt_Some).
  destruct (setState_to_loop this (VRef lv) w Hlt Hqs)
    as (w2 & -> & Hp & Hl & Hc & Hh).
  assert (subscribers this "change" w2 = subscribers this "change" w) as Hsub
    by (unfold subscribers; by rewrite Hl).
  unfold field_loop. rewrite bind_unfold, Object_keys_ref. simpl.
  rewrite (Hh lv ltac:(lia) Hks2), after_store_old, Hpv by done. simpl.
  rewrite array_indices_keys, Hs.
  destruct (change_loop_run this ls (length (heap w)) old (pv ∪ old)
              ((λ i : nat, pretty i) <$> seq 0 (size pv)) w2)
    as (w' & -> & _ & _ & Hc' & _).
  - by rewrite (Hh ls ltac:(lia) Hks1), after_store_old.
  - rewrite (Hh (length (heap w)) ltac:(lia) Hks3), after_store_new. unfold merged.
    rewrite Hs. simpl. by rewrite Hpv, Hold.
  - unfold listeners_quiet. by rewrite Hsub.
  - unfold listeners_keep. by rewrite Hsub.
  - unfold listeners_keep. by rewrite Hsub.
  - exists w'. split; [done|].
    by rewrite Hc', Hc, Hsub, <- (assoc_L (++)).
Qed.



(** The example of the claim: [{a: 1, b: 2}] and [{b: 3}] give
    [{a: 1, b: 3}]. *)
Example setState_merges_ab :
  ∃ w'', state 0 (world_of (setState 0 (VRef 2) (ab_world b3))) = Ok (VRef 4) w'' ∧
         heap w'' !! 4%nat = Some a1b3.
Proof. eexists. split; vm_compute; reflexivity. Qed.

(** X1.  What the field loop really notifies.  On a snapshot object [old]
    and a value object [pv], neither with a field named [__proto__], with
    listeners that return and write to neither of them nor to the new
    snapshot, [setState] returns and its calls are the
    ['statechange'] calls followed by ['change'] calls for the keys
    ["0"], ["1"], ... below the number of fields of [pv], in this order: one
    round for every such index whose field differs between the new and the
    old snapshot.  A field of [pv] that is not named by such an index is
    never reported; when [pv] has no field so named there is no ['change']
    call at all. *)
Theorem setState_change_calls this ls old lv pv w :
  (this < length (heap w))%nat →
  snapshot this w = VRef ls → heap w !! ls = Some old → heap w !! lv = Some pv →
  old !! "__proto__" = None → pv !! "__proto__" = None →
  listeners_quiet this "statechange" w → listeners_quiet this "change" w →
  leaves this ls w → leaves this lv w → leaves this (length (heap w)) w →
  ∃ w',
    setState this (VRef lv) w = Ok () w' ∧
    calls w' =
      calls w ++ statechange_calls this w
      ++ change_calls this (subscribers this "change" w) old (pv ∪ old)
           ((λ i : nat, pretty i) <$> seq 0 (size pv)) ∧
    ((∀ i, (i < size pv)%nat → pv !! pretty i = None) →
     calls w' = calls w ++ statechange_calls this w).
Proof.
  intros Hlt Hs Hold Hpv _ _ Hqs Hqc Hk1 Hk2 Hk3.
  destruct (setState_run this ls old lv pv w) as (w' & Hrun & Hc); try done.
  exists w'. split; [done|]. split; [done|].
  intros Hnone. rewrite Hc, change_calls_same; [by rewrite (right_id_L [] (++))|].
  apply Forall_fmap, Forall_forall. intros i Hi. simpl.
  apply elem_of_seq in Hi. apply lookup_union_r, Hnone. lia.
Qed.

Lemma setState_change_calls_witness :
  ∃ w',
    setState 0 (VRef 2) (ab_world b3) = Ok () w' ∧
    calls w' =
      calls (ab_world b3) ++ statechange_calls 0 (ab_world b3)
      ++ change_calls 0 (subscribers 0 "change" (ab_world b3)) a1b2 (b3 ∪ a1b2)
           ((λ i : nat, pretty i) <$> seq 0 (size b3)) ∧
    ((∀ i, (i < size b3)%nat → b3 !! pretty i = None) →
     calls w' = calls (ab_world b3) ++ statechange_calls 0 (ab_world b3)).
Proof.
  apply (setState_change_calls 0 1 a1b2 2 b3 (ab_world b3)).
  - vm_compute; lia.
  - reflexivity.
  - reflexivity.
  - reflexivity.
  - reflexivity.
  - reflexivity.
  - repeat constructor.
  - repeat constructor.
  - split; repeat constructor.
  - split; repeat constructor.
  - split; repeat constructor.
Defined.

(** A field named ["0"] is reported, by the accident that its name is an
    index of the array of names. *)
Example change_for_index_name :
  calls (world_of (setState 0 (VRef 2) (ab_world {[ "0" := VNum 7 ]}))) =
    [ Call 0 "statechange" "S1" [VRef 3; VRef 1];
      Call 0 "statechange" "S2" [VRef 3; VRef 1];
      Call 0 "change" "C" [VNum 7; VUndef] ].
Proof. vm_compute. reflexivity. Qed.








(** ** The constructor *)

(** X5.  An instance of the base class has no snapshot: the constructor
    reads [this.initialState], which the class does not define, so what it
    stores is [undefined], not the [null] of [initial_state]; a read then
    returns [undefined], raises nothing and changes nothing. *)
Theorem base_instance_reads_undefined w :
  ∃ this w1,
    constructor None w = Ok this w1 ∧
    this = length (heap w) ∧
    snapshot this w1 = VUndef ∧
    state this w1 = Ok VUndef w1.
Proof.
  rewrite constructor_eq. simpl. eexists _, _. split; [reflexivity|].
  split; [done|].
  match goal with |- snapshot _ ?w1 = _ ∧ _ =>
    assert (snapshot (length (heap w)) w1 = VUndef) as Hs end.
  { unfold snapshot, instance_id, fresh_instance. simpl.
    rewrite list_lookup_middle by done. simpl.
    rewrite lookup_singleton_eq. simpl. by rewrite lookup_insert_eq. }
  split; [done|]. by rewrite state_eq, Hs.
Qed.

(** [get initialState() { return shared; }] for an object [shared] made
    elsewhere. *)
Definition shared (l0 : nat) : nat → user val := λ _ h, (h, inr (VRef l0)).

(** X6.  The constructor stores what [initialState] returns as it is,
    without copying it, unlike [setState] and its value: when the accessor
    returns an object [o] that exists elsewhere, the snapshot is that very
    object, and a later write to a field of it, of a name other than
    [__proto__], shows in what [state] returns: that field has the value
    written and the others, that name apart, are those of [o]. *)
Theorem constructor_stores_reference l0 o w :
  heap w !! l0 = Some o →
  ∃ this w1,
    constructor (Some (shared l0)) w = Ok this w1 ∧
    snapshot this w1 = VRef l0 ∧
    ∀ k v, k ≠ "__proto__" → ∃ c w2 m,
      state this (world_of (set_prop l0 k v w1)) = Ok (VRef c) w2 ∧
      heap w2 !! c = Some m ∧
      m !! k = Some v ∧
      (∀ k', k' ≠ k → k' ≠ "__proto__" → m !! k' = o !! k').
Proof.
  intros Ho.
  assert (l0 < length (heap w))%nat as Hl0 by (by eapply lookup_lt_Some).
  rewrite constructor_eq. simpl. eexists _, _. split; [reflexivity|].
  match goal with |- snapshot _ ?w1 = _ ∧ _ =>
    assert (snapshot (length (heap w)) w1 = VRef l0) as Hs end.
  { unfold snapshot, instance_id, fresh_instance. simpl.
    rewrite list_lookup_middle by done. simpl.
    rewrite lookup_singleton_eq. simpl. by rewrite lookup_insert_eq. }
  split; [done|]. intros k v _. rewrite state_eq.
  match goal with |- context [snapshot _ ?w2] =>
    assert (snapshot (length (heap w)) w2 = VRef l0) as Hs' end.
  { unfold snapshot, instance_id, fresh_instance. simpl.
    rewrite list_lookup_alter_ne by lia.
    rewrite list_lookup_middle by done. simpl.
    rewrite lookup_singleton_eq. simpl. by rewrite lookup_insert_eq. }
  rewrite Hs'. simpl. eexists _, _, _. split; [reflexivity|]. simpl.
  split; [by rewrite list_lookup_middle|].
  rewrite list_lookup_alter_eq, lookup_app_l, Ho by done. simpl.
  split; [by rewrite lookup_insert_eq|].
  intros k' Hk' _. by rewrite lookup_insert_ne.
Qed.

Lemma constructor_stores_reference_witness :
  ∃ this w1,
    constructor (Some (shared 2)) (ab_world b3) = Ok this w1 ∧
    snapshot this w1 = VRef 2 ∧
    ∀ k v, k ≠ "__proto__" → ∃ c w2 m,
      state this (world_of (set_prop 2 k v w1)) = Ok (VRef c) w2 ∧
      heap w2 !! c = Some m ∧
      m !! k = Some v ∧
      (∀ k', k' ≠ k → k' ≠ "__proto__" → m !! k' = b3 !! k').
Proof.
  apply (constructor_stores_reference 2 b3 (ab_world b3)). reflexivity.
Defined.

(** ** What the operations never touch *)

(** The number of [new] in a sequence of operations. *)
Fixpoint constructions (ops : list op) : nat :=
  match ops with
  | [] => 0
  | New _ :: rest => S (constructions rest)
  | _ :: rest => constructions rest
  end.

Lemma store_then_private this value rest w :
  ∃ w1 old k,
    store_then this value rest w = rest (VRef (length (heap w))) old w1 ∧
    private w1 =
      {| PrivateStates.id := PrivateStates.id (private w);
         PrivateStates.states :=
           <[k := VRef (length (heap w))]> (PrivateStates.states (private w)) |}.
Proof.
  unfold store_then.
  do 3 (rewrite bind_unfold; simpl).
  remember (default VUndef (PrivateStates.states (private w) !! _)) as old eqn:Hold.
  clear Hold. destruct (truthy old) eqn:Ht.
  - do 4 (rewrite bind_unfold; simpl). by eexists _, old, _.
  - do 4 (rewrite bind_unfold; simpl). by eexists _, old, _.
Qed.

Lemma setState_table this value w :
  ∃ k, private (world_of (setState this value w)) =
         {| PrivateStates.id := PrivateStates.id (private w);
            PrivateStates.states :=
              <[k := VRef (length (heap w))]> (PrivateStates.states (private w)) |}.
Proof.
  destruct (store_then_private this value (notify this value) w)
    as (w1 & old & k & Heq & Hp).
  change (setState this value w) with (store_then this value (notify this value) w).
  rewrite Heq.
  destruct (notify_private this value (VRef (length (heap w))) old w1) as [Hp' _].
  exists k. by rewrite Hp'.
Qed.

Lemma run_op_private o w :
  PrivateStates.id (private (run_op o w).1) =
    (PrivateStates.id (private w)
     + match o with New _ => 1 | _ => 0 end)%Z ∧
  dom (PrivateStates.states (private w))
    ⊆ dom (PrivateStates.states (private (run_op o w).1)).
Proof.
  destruct o as [g|this|this value|this ev l|f]; simpl.
  - rewrite constructor_eq. simpl. destruct g as [getter|]; simpl.
    + destruct (getter _ _) as [h [e|v]]; simpl; (split; [done|]); [done|].
      rewrite dom_insert_L. set_solver.
    + split; [done|]. rewrite dom_insert_L. set_solver.
  - rewrite state_eq. destruct (truthy _); simpl; (split; [lia|done]).
  - destruct (setState_table this value w) as [k ->]. simpl.
    split; [lia|]. rewrite dom_insert_L. set_solver.
  - split; [lia|done].
  - unfold lift_user. destruct (f (heap w)) as [h [e|[]]]; simpl; (split; [lia|done]).
Qed.

(** X7.  [PrivateStates.id] counts the constructions: after any sequence of
    operations it has grown by the number of [new] in it, whether or not
    [initialState] threw, and no other operation changes it.  No operation
    removes an entry of [PrivateStates.states]: the names present before are
    present after. *)
Theorem run_counts_constructions ops w :
  PrivateStates.id (private (run ops w).1) =
    (PrivateStates.id (private w) + Z.of_nat (constructions ops))%Z ∧
  dom (PrivateStates.states (private w))
    ⊆ dom (PrivateStates.states (private (run ops w).1)).
Proof.
  revert w. induction ops as [|o ops IH]; intros w; simpl.
  - split; [lia|done].
  - destruct (run_op_private o w) as [Hid Hdom].
    destruct (run_op o w) as [w1 c]. simpl in *.
    pose proof (IH w1) as [Hid' Hdom'].
    destruct (run ops w1) as [w2 cs]. simpl in *.
    split; [|by etrans].
    rewrite Hid', Hid. destruct o; simpl; lia.
Qed.

(** A construction whose [initialState] throws still uses up an
    identity. *)
Example counter_after_failed_construction :
  let ops := [ New (Some (λ _ h, (h, inl (Thrown (VStr "boom"))))); New None ] in
  (run ops initial_world).2 = [1%nat] ∧
  instance_id 1 (run ops initial_world).1 = VNum 2.
Proof. vm_compute. split; reflexivity. Qed.

(** X8.  [setState] writes to no object that exists when it is called: an
    object the listeners leave alone has its fields unchanged afterwards,
    whatever the outcome, so the old snapshot and the copies read earlier
    stay as they were.  It does not change [PrivateStates.id] or the
    listeners, and of [PrivateStates.states] it changes the entry of its
    instance only. *)
Theorem setState_frame this value w :
  (this < length (heap w))%nat →
  let w' := world_of (setState this value w) in
  (∀ l, (l < length (heap w))%nat → leaves this l w →
        heap w' !! l = heap w !! l) ∧
  PrivateStates.id (private w') = PrivateStates.id (private w) ∧
  listeners w' = listeners w ∧
  (∀ k, k ≠ to_key (instance_id this w) →
        PrivateStates.states (private w') !! k
          = PrivateStates.states (private w) !! k).
Proof.
  intros Hlt w'. subst w'.
  destruct (setState_private this value w Hlt) as [Hp Hl].
  split; [|split; [|split]].
  - intros l Hl0 Hk. by rewrite setState_leaves, after_store_old by (done || lia).
  - by rewrite Hp.
  - done.
  - intros k Hk. rewrite Hp. simpl. by rewrite lookup_insert_ne.
Qed.

Lemma setState_frame_witness :
  let w' := world_of (setState 0 (VRef 2) (ab_world b3)) in
  heap w' !! 1%nat = heap (ab_world b3) !! 1%nat ∧
  PrivateStates.id (private w') = PrivateStates.id (private (ab_world b3)).
Proof.
  destruct (setState_frame 0 (VRef 2) (ab_world b3)) as (Hh & Hid & _).
  - vm_compute; lia.
  - split; [|exact Hid]. apply Hh; [vm_compute; lia|split; repeat constructor].
Defined.

(** X9.  Two updates in a row merge like one: from the snapshot [old],
    [setState(pv1)] followed by [setState(pv2)] leaves a snapshot that reads
    as [pv2] over [pv1] over [old], field by field, the name [__proto__]
    apart, whether or not the calls returned.  The listeners are taken not
    to write to the instance, to the second value and to the two new
    snapshots; they may make objects and write to any other. *)
Theorem setState_twice this ls old lv1 pv1 lv2 pv2 w :
  (this < length (heap w))%nat →
  snapshot this w = VRef ls → heap w !! ls = Some old →
  heap w !! lv1 = Some pv1 → heap w !! lv2 = Some pv2 →
  let w1 := world_of (setState this (VRef lv1) w) in
  let w2 := world_of (setState this (VRef lv2) w1) in
  leaves this this w → leaves this lv2 w →
  leaves this (length (heap w)) w → leaves this (length (heap w1)) w →
  ∃ c w3 m, state this w2 = Ok (VRef c) w3 ∧
            heap w3 !! c = Some m ∧
            ∀ k, k ≠ "__proto__" → m !! k = (pv2 ∪ (pv1 ∪ old)) !! k.
Proof.
  intros Hlt Hs Hold Hpv1 Hpv2 w1 w2 Hkt Hkv Hkn1 Hkn2.
  assert (lv2 < length (heap w))%nat as Hlv2 by (by eapply lookup_lt_Some).
  destruct (setState_private this (VRef lv1) w Hlt) as [_ Hl1]. fold w1 in Hl1.
  assert (∀ l, leaves this l w → leaves this l w1) as Hk1.
  { intros l [H1 H2].
    unfold leaves, listeners_keep, subscribers in *. by rewrite Hl1. }
  assert (heap w1 !! this = heap w !! this) as Hthis.
  { subst w1. by rewrite setState_leaves, after_store_old by (done || lia). }
  assert (this < length (heap w1))%nat as Hlt1.
  { apply lookup_lt_is_Some. rewrite Hthis. by apply lookup_lt_is_Some. }
  destruct (state_after_setState this (VRef lv2) w1 Hlt1 (Hk1 _ Hkt) (Hk1 _ Hkn2))
    as (w3 & Hst & Hm).
  subst w2. eexists _, w3, _. split; [exact Hst|]. split; [exact Hm|].
  intros k _. f_equal. unfold merged.
  assert (snapshot this w1 = VRef (length (heap w))) as ->
    by (subst w1; by apply setState_snapshot).
  simpl. subst w1.
  rewrite !setState_leaves, after_store_old, after_store_new, Hpv2
    by (done || lia).
  simpl. unfold merged. rewrite Hs. simpl. by rewrite Hpv1, Hold.
Qed.

(** An instance with state [{a: 1, b: 2}] without listeners, and the
    objects [{b: 3}] and [{a: 1}], objects 2 and 3. *)
Definition twice_world : World :=
  world_of ((e ← constructor (Some (literal a1b2));
             alloc b3;;
             alloc a1) initial_world).

Lemma setState_twice_witness :
  ∃ c w3 m,
    state 0 (world_of (setState 0 (VRef 3)
                         (world_of (setState 0 (VRef 2) twice_world))))
      = Ok (VRef c) w3 ∧
    heap w3 !! c = Some m ∧
    ∀ k, k ≠ "__proto__" → m !! k = (a1 ∪ (b3 ∪ a1b2)) !! k.
Proof.
  apply (setState_twice 0 1 a1b2 2 b3 3 a1 twice_world).
  - vm_compute; lia.
  - reflexivity.
  - reflexivity.
  - reflexivity.
  - reflexivity.
  - split; constructor.
  - split; constructor.
  - split; constructor.
  - split; constructor.
Defined.

(** X10.  Reads repeat: on an instance whose snapshot is the object [old],
    which has no field named [__proto__], [n] reads in a row add [n] objects
    equal to [old] to the store and change nothing else, so no listener is
    called and the snapshot stays;
    the next read returns yet another reference, different from all those
    returned before, to an object with the fields of [old]. *)
Theorem reads_repeat n this ls old w :
  (this < length (heap w))%nat →
  snapshot this w = VRef ls → heap w !! ls = Some old →
  old !! "__proto__" = None →
  heap (reads n this w) = heap w ++ replicate n old ∧
  private (reads n this w) = private w ∧
  listeners (reads n this w) = listeners w ∧
  calls (reads n this w) = calls w ∧
  ∃ w', state this (reads n this w) = Ok (VRef (length (heap w) + n)) w' ∧
        heap w' !! (length (heap w) + n)%nat = Some old.
Proof.
  revert w. induction n as [|n IH]; intros w Hlt Hs Hold Hproto.
  - simpl. rewrite (right_id_L [] (++)). repeat (split; [done|]).
    rewrite state_eq, Hs. simpl. rewrite Hold. simpl.
    eexists. rewrite Nat.add_0_r. split; [reflexivity|]. simpl.
    by rewrite list_lookup_middle.
  - assert (ls < length (heap w))%nat as Hls by (by eapply lookup_lt_Some).
    simpl. rewrite state_eq, Hs. simpl. rewrite Hold. simpl.
    match goal with |- context [reads n this ?w1] =>
      destruct (IH w1) as (Hh & Hp & Hl & Hc & w' & Hst & Hw') end.
    + simpl. rewrite length_app. lia.
    + rewrite <- Hs. unfold snapshot, instance_id. simpl.
      by rewrite lookup_app_l.
    + simpl. by rewrite lookup_app_l.
    + done.
    + simpl in *. rewrite Hh, Hp, Hl, Hc, <- (assoc_L (++)). simpl.
      repeat (split; [done|]).
      rewrite length_app in Hst, Hw'. simpl in Hst, Hw'.
      replace (length (heap w) + S n)%nat with (length (heap w) + 1 + n)%nat by lia.
      by exists w'.
Qed.

Lemma reads_repeat_witness :
  heap (reads 3 0 (ab_world b3)) = heap (ab_world b3) ++ replicate 3 a1b2 ∧
  calls (reads 3 0 (ab_world b3)) = calls (ab_world b3).
Proof.
  destruct (reads_repeat 3 0 1 a1b2 (ab_world b3)) as (Hh & _ & _ & Hc & _).
  - vm_compute; lia.
  - reflexivity.
  - reflexivity.
  - reflexivity.
  - by split.
Defined.
